(** * CSqliteVec shim: registration and vector byte sizes

    A shallow embedding of [Packages/SqliteVec/Sources/CSqliteVec/include/shim.h]:
    the five [static inline] helpers of the header, written as computations
    in a small monad of C function bodies (return a value, hit undefined
    behaviour, or call into the sqlite-vec extension), over machine integers
    represented as [Z] with the wrap-around of [size_t] written out. *)

From Stdlib Require Import ZArith QArith Qround Lia List String.
Import ListNotations.

Local Open Scope Z_scope.

(** ** Machine integers *)

Module CInt.

(** [int] is a 32-bit two's complement integer on every ABI the package is
    built for. *)
Definition int_bits : Z := 32.
Definition INT_MAX : Z := 2 ^ (int_bits - 1) - 1.
Definition INT_MIN : Z := - 2 ^ (int_bits - 1).

(** The values an [int] parameter can hold. *)
Definition int_range (x : Z) : Prop := INT_MIN <= x <= INT_MAX.

Section SizeT.

(** Width of [size_t] in bits: 64 on LP64 targets, 32 on ILP32 ones. *)
Variable size_bits : Z.

Definition size_modulus : Z := 2 ^ size_bits.
Definition SIZE_MAX : Z := size_modulus - 1.

(** The values a [size_t] can hold. *)
Definition size_range (x : Z) : Prop := 0 <= x <= SIZE_MAX.

(** [(size_t)x] for a signed [x], and the implicit conversion of an [int]
    operand that meets a [size_t] one: reduction modulo [2^size_bits]. *)
Definition size_of_int (x : Z) : Z := x mod size_modulus.

(** Unsigned [+] and [*] on [size_t] wrap around. *)
Definition size_add (a b : Z) : Z := (a + b) mod size_modulus.
Definition size_mul (a b : Z) : Z := (a * b) mod size_modulus.

End SizeT.

(** [sizeof] of the two element types, as [size_t] constants. *)
Definition sizeof_float : Z := 4.
Definition sizeof_int8_t : Z := 1.

End CInt.

Import CInt.

(** ** Pointers *)

(** A C pointer value: null or an address.  The referent is never inspected
    by the shim, so one type serves for [sqlite3 *], [char **] and
    [const sqlite3_api_routines *]. *)
Inductive pointer : Type :=
| NULL : pointer
| Addr : Z -> pointer.

(** ** Function bodies as computations *)

(** What a body of the header can do: return, run into undefined behaviour
    (the only candidate in the header is a division), or call
    [sqlite3_vec_init(db, pzErrMsg, pApi)] and go on with its [int] result. *)
Inductive prog (R : Type) : Type :=
| Ret : R -> prog R
| Undefined : prog R
| Call_sqlite3_vec_init : pointer -> pointer -> pointer -> (Z -> prog R) -> prog R.

Arguments Ret {R} _.
Arguments Undefined {R}.
Arguments Call_sqlite3_vec_init {R} _ _ _ _.

(** Unsigned [/] on [size_t]: undefined for a zero divisor. *)
Definition size_div (a b : Z) : prog Z :=
  if b =? 0 then Undefined else Ret (a / b).

(** ** The header *)

Section Shim.

Variable size_bits : Z.

(** [SQLITE_VEC_VERSION], the string literal that [sqlite-vec.h] defines;
    that header is not part of the package sources, so the literal is a
    parameter of the model. *)
Variable SQLITE_VEC_VERSION : string.

(** [return sqlite3_vec_init(db, NULL, NULL);] *)
Definition sqlite_vec_register (db : pointer) : prog Z :=
  Call_sqlite3_vec_init db NULL NULL (fun rc => Ret rc).

(** [return SQLITE_VEC_VERSION;] *)
Definition sqlite_vec_version : prog string :=
  Ret SQLITE_VEC_VERSION.

(** [return (size_t)dimensions * sizeof(float);] *)
Definition sqlite_vec_float32_byte_size (dimensions : Z) : prog Z :=
  Ret (size_mul size_bits (size_of_int size_bits dimensions) sizeof_float).

(** [return (size_t)dimensions * sizeof(int8_t);] *)
Definition sqlite_vec_int8_byte_size (dimensions : Z) : prog Z :=
  Ret (size_mul size_bits (size_of_int size_bits dimensions) sizeof_int8_t).

(** [return ((size_t)dimensions + 7) / 8;] *)
Definition sqlite_vec_binary_byte_size (dimensions : Z) : prog Z :=
  size_div
    (size_add size_bits (size_of_int size_bits dimensions)
                        (size_of_int size_bits 7))
    (size_of_int size_bits 8).

End Shim.

(** ** Running a body against the extension *)

(** One executed call of [sqlite3_vec_init]: its three arguments and the
    status it gave back. *)
Record init_call : Type := Init_call {
  call_db : pointer;
  call_pzErrMsg : pointer;
  call_pApi : pointer;
  call_status : Z
}.

Section Run.

(** Everything outside the shim that the extension may read or change:
    the connection, the registered modules, the allocator. *)
Variable world : Type.

(** The behaviour of [sqlite3_vec_init], left arbitrary. *)
Definition extension : Type :=
  pointer -> pointer -> pointer -> world -> Z * world.

Variable sqlite3_vec_init : extension.

(** [run p w] executes [p] from [w]: the returned value, the world it
    leaves and the calls it made, oldest first; [None] when it runs into
    undefined behaviour. *)
Fixpoint run {R : Type} (p : prog R) (w : world)
  : option (R * world * list init_call) :=
  match p with
  | Ret r => Some (r, w, [])
  | Undefined => None
  | Call_sqlite3_vec_init db e api k =>
      let '(rc, w') := sqlite3_vec_init db e api w in
      match run (k rc) w' with
      | Some (r, w'', calls) => Some (r, w'', Init_call db e api rc :: calls)
      | None => None
      end
  end.

End Run.

Arguments run {world} sqlite3_vec_init {R} p w.

(** A sample extension, for concrete runs: it counts its calls and fails
    with [SQLITE_ERROR] (1) on a null connection. *)
Definition counting_extension : extension nat :=
  fun db _ _ n =>
    match db with
    | NULL => (1, S n)
    | Addr _ => (0, S n)
    end.

(** Sequencing of two bodies, as a caller that uses the result of the
    first in the second. *)
Fixpoint bind {A B : Type} (p : prog A) (k : A -> prog B) : prog B :=
  match p with
  | Ret a => k a
  | Undefined => Undefined
  | Call_sqlite3_vec_init db e api h =>
      Call_sqlite3_vec_init db e api (fun rc => bind (h rc) k)
  end.

(** * Properties *)

(** Range side conditions on literals. *)
Ltac int_side :=
  unfold int_range, INT_MIN, INT_MAX, int_bits; simpl; lia.

(** ** Arithmetic of [size_t] *)

Lemma size_modulus_lower (W : Z) :
  int_bits < W -> 2 ^ 33 <= size_modulus W.
Proof.
  unfold int_bits, size_modulus. intros HW.
  apply Z.pow_le_mono_r; lia.
Qed.

Lemma size_modulus_pos (W : Z) : 0 <= W -> 0 < size_modulus W.
Proof.
  intros HW. unfold size_modulus. apply Z.pow_pos_nonneg; lia.
Qed.

Lemma size_of_int_small (W x : Z) :
  0 <= x < size_modulus W -> size_of_int W x = x.
Proof. intros Hx. unfold size_of_int. now apply Z.mod_small. Qed.

Lemma size_of_int_negative (W x : Z) :
  - size_modulus W <= x < 0 -> size_of_int W x = size_modulus W + x.
Proof.
  intros Hx. unfold size_of_int.
  symmetry. apply (Z.mod_unique_pos _ _ (-1)); lia.
Qed.

Lemma size_modulus_split (W : Z) :
  3 <= W -> size_modulus W = 8 * size_modulus (W - 3).
Proof.
  intros HW. unfold size_modulus.
  replace W with (3 + (W - 3)) at 1 by lia.
  rewrite Z.pow_add_r by lia. reflexivity.
Qed.

Lemma int_bounds : INT_MIN = - 2147483648 /\ INT_MAX = 2147483647.
Proof. split; reflexivity. Qed.

(** The library ceiling of [d/8] as an integer quotient. *)
Lemma Qceiling_eighth (d : Z) : Qceiling (d # 8) = (d + 7) / 8.
Proof.
  unfold Qceiling, Qfloor. cbn [Qopp Qnum Qden].
  Z.div_mod_to_equations. lia.
Qed.

(** ** What the three size helpers compute on a non-negative [int] *)

Lemma float32_nonneg (W d : Z) :
  int_bits < W -> 0 <= d <= INT_MAX ->
  sqlite_vec_float32_byte_size W d = Ret (4 * d).
Proof.
  intros HW Hd. destruct int_bounds as [_ Hmax].
  pose proof (size_modulus_lower W HW) as Hm.
  unfold sqlite_vec_float32_byte_size, size_mul, sizeof_float.
  rewrite size_of_int_small by lia.
  rewrite Z.mod_small by lia. f_equal. lia.
Qed.

Lemma int8_nonneg (W d : Z) :
  int_bits < W -> 0 <= d <= INT_MAX ->
  sqlite_vec_int8_byte_size W d = Ret d.
Proof.
  intros HW Hd. destruct int_bounds as [_ Hmax].
  pose proof (size_modulus_lower W HW) as Hm.
  unfold sqlite_vec_int8_byte_size, size_mul, sizeof_int8_t.
  rewrite size_of_int_small by lia.
  rewrite Z.mod_small by lia. f_equal. lia.
Qed.

Lemma binary_divisor (W : Z) :
  int_bits < W -> size_of_int W 8 = 8 /\ size_of_int W 7 = 7.
Proof.
  intros HW. pose proof (size_modulus_lower W HW) as Hm.
  split; apply size_of_int_small; lia.
Qed.

Lemma binary_nonneg (W d : Z) :
  int_bits < W -> 0 <= d <= INT_MAX ->
  sqlite_vec_binary_byte_size W d = Ret ((d + 7) / 8).
Proof.
  intros HW Hd. destruct int_bounds as [_ Hmax].
  pose proof (size_modulus_lower W HW) as Hm.
  destruct (binary_divisor W HW) as [H8 H7].
  unfold sqlite_vec_binary_byte_size, size_add.
  rewrite H8, H7, size_of_int_small by lia.
  rewrite Z.mod_small by lia. reflexivity.
Qed.

(** ** What they compute on any [int], negative ones included *)

Lemma float32_wraps (W d : Z) :
  int_bits < W ->
  sqlite_vec_float32_byte_size W d = Ret ((4 * d) mod size_modulus W).
Proof.
  intros HW. pose proof (size_modulus_lower W HW) as Hm.
  unfold sqlite_vec_float32_byte_size, size_mul, size_of_int, sizeof_float.
  rewrite Z.mul_mod_idemp_l by lia. f_equal. f_equal. lia.
Qed.

Lemma int8_wraps (W d : Z) :
  int_bits < W ->
  sqlite_vec_int8_byte_size W d = Ret (d mod size_modulus W).
Proof.
  intros HW. pose proof (size_modulus_lower W HW) as Hm.
  unfold sqlite_vec_int8_byte_size, size_mul, size_of_int, sizeof_int8_t.
  rewrite Z.mul_1_r. rewrite Z.mod_mod by lia. reflexivity.
Qed.

(** From [-7] to [-1] the addition of [7] wraps past zero. *)
Lemma binary_negative_near (W d : Z) :
  int_bits < W -> -7 <= d < 0 ->
  sqlite_vec_binary_byte_size W d = Ret 0.
Proof.
  intros HW Hd. pose proof (size_modulus_lower W HW) as Hm.
  destruct (binary_divisor W HW) as [H8 H7].
  unfold sqlite_vec_binary_byte_size, size_add.
  rewrite H8, H7, size_of_int_negative by lia.
  replace (size_modulus W + d + 7) with (d + 7 + 1 * size_modulus W) by lia.
  rewrite Z.mod_add by lia. rewrite Z.mod_small by lia.
  unfold size_div. cbn [Z.eqb]. f_equal. apply Z.div_small. lia.
Qed.

(** From [-8] downwards nothing wraps after the conversion, and the
    quotient is taken of a number close to [2^W]. *)
Lemma binary_negative_far (W d : Z) :
  int_bits < W -> INT_MIN <= d <= -8 ->
  sqlite_vec_binary_byte_size W d = Ret (size_modulus (W - 3) + (d + 7) / 8).
Proof.
  intros HW Hd. destruct int_bounds as [Hmin _].
  pose proof (size_modulus_lower W HW) as Hm.
  destruct (binary_divisor W HW) as [H8 H7].
  assert (H3 : 3 <= W) by (unfold int_bits in HW; lia).
  pose proof (size_modulus_split W H3) as Hs.
  unfold sqlite_vec_binary_byte_size, size_add.
  rewrite H8, H7, size_of_int_negative by lia.
  rewrite Z.mod_small by lia.
  unfold size_div. cbn [Z.eqb]. f_equal.
  rewrite Hs.
  replace (8 * size_modulus (W - 3) + d + 7)
    with (d + 7 + size_modulus (W - 3) * 8) by lia.
  rewrite Z.div_add by lia. lia.
Qed.

Lemma binary_negative (W d : Z) :
  int_bits < W -> INT_MIN <= d < 0 ->
  sqlite_vec_binary_byte_size W d =
  Ret (Qceiling (d # 8) mod size_modulus (W - 3)).
Proof.
  intros HW Hd. destruct int_bounds as [Hmin _].
  rewrite Qceiling_eighth.
  destruct (Z_lt_le_dec d (-7)) as [Hfar | Hnear].
  - rewrite binary_negative_far by lia. f_equal.
    assert (H3 : 3 <= W) by (unfold int_bits in HW; lia).
    pose proof (size_modulus_lower W HW) as Hm.
    pose proof (size_modulus_split W H3) as Hs.
    assert (Hq : - 268435456 <= (d + 7) / 8 < 0)
      by (Z.div_mod_to_equations; lia).
    apply (Z.mod_unique_pos _ _ (-1)); lia.
  - rewrite binary_negative_near by lia. f_equal.
    replace ((d + 7) / 8) with 0 by (symmetry; apply Z.div_small; lia).
    symmetry. apply Z.mod_0_l.
    assert (H0 : 0 < size_modulus (W - 3))
      by (apply size_modulus_pos; unfold int_bits in HW; lia).
    lia.
Qed.

(** Every result is a [size_t], whatever the argument. *)
Lemma binary_total (W d : Z) :
  int_bits < W ->
  exists v, sqlite_vec_binary_byte_size W d = Ret v /\ size_range W v.
Proof.
  intros HW. pose proof (size_modulus_lower W HW) as Hm.
  destruct (binary_divisor W HW) as [H8 H7].
  unfold sqlite_vec_binary_byte_size. rewrite H8.
  unfold size_div. cbn [Z.eqb].
  eexists. split; [reflexivity|].
  unfold size_range, SIZE_MAX, size_add.
  set (x := (size_of_int W d + size_of_int W 7) mod size_modulus W).
  assert (Hx : 0 <= x < size_modulus W) by (apply Z.mod_pos_bound; lia).
  Z.div_mod_to_equations. lia.
Qed.

(** ** The byte-size contract on non-negative dimensions *)

(** C1. For a non-negative [int] [d], [sqlite_vec_binary_byte_size] returns
    the ceiling of [d/8]; it returns [k] at [d = 8k], [1] at [d = 1] and
    [d = 7], and [2] at [d = 9].  [size_t] is wider than [int]. *)
Theorem binary_byte_size_ceiling (W d k : Z)
  (HW : int_bits < W) (Hd : 0 <= d <= INT_MAX) (Hk : 0 <= 8 * k <= INT_MAX) :
  sqlite_vec_binary_byte_size W d = Ret (Qceiling (d # 8)) /\
  sqlite_vec_binary_byte_size W (8 * k) = Ret k /\
  sqlite_vec_binary_byte_size W 1 = Ret 1 /\
  sqlite_vec_binary_byte_size W 7 = Ret 1 /\
  sqlite_vec_binary_byte_size W 9 = Ret 2.
Proof.
  split; [|split; [|split; [|split]]].
  - rewrite Qceiling_eighth. now apply binary_nonneg.
  - rewrite binary_nonneg by assumption. f_equal.
    Z.div_mod_to_equations. lia.
  - now rewrite binary_nonneg by (assumption || int_side).
  - now rewrite binary_nonneg by (assumption || int_side).
  - now rewrite binary_nonneg by (assumption || int_side).
Qed.

Lemma binary_byte_size_ceiling_at_1000 :
  int_bits < 64 /\ 0 <= 1000 <= INT_MAX /\ 0 <= 8 * 48 <= INT_MAX /\
  sqlite_vec_binary_byte_size 64 1000 = Ret 125 /\
  sqlite_vec_binary_byte_size 64 (8 * 48) = Ret 48.
Proof.
  assert (HW : int_bits < 64) by int_side.
  assert (Hd : 0 <= 1000 <= INT_MAX) by int_side.
  assert (Hk : 0 <= 8 * 48 <= INT_MAX) by int_side.
  destruct (binary_byte_size_ceiling 64 1000 48 HW Hd Hk) as (H1 & H2 & _).
  exact (conj HW (conj Hd (conj Hk (conj H1 H2)))).
Defined.

(** C2. For a non-negative [int] [d], [sqlite_vec_float32_byte_size] returns
    exactly [4 * d]; at [d = 384] that is [1536]. *)
Theorem float32_byte_size_formula (W d : Z)
  (HW : int_bits < W) (Hd : 0 <= d <= INT_MAX) :
  sqlite_vec_float32_byte_size W d = Ret (4 * d) /\
  sqlite_vec_float32_byte_size W 384 = Ret 1536.
Proof.
  split.
  - now apply float32_nonneg.
  - now rewrite float32_nonneg by (assumption || int_side).
Qed.

Lemma float32_byte_size_formula_at_max :
  int_bits < 64 /\ 0 <= 2147483647 <= INT_MAX /\
  sqlite_vec_float32_byte_size 64 2147483647 = Ret 8589934588.
Proof.
  assert (HW : int_bits < 64) by int_side.
  assert (Hd : 0 <= 2147483647 <= INT_MAX) by int_side.
  destruct (float32_byte_size_formula 64 2147483647 HW Hd) as [H _].
  exact (conj HW (conj Hd H)).
Defined.

(** C3. For a non-negative [int] [d], [sqlite_vec_int8_byte_size] returns
    exactly [d]. *)
Theorem int8_byte_size_formula (W d : Z)
  (HW : int_bits < W) (Hd : 0 <= d <= INT_MAX) :
  sqlite_vec_int8_byte_size W d = Ret d.
Proof. now apply int8_nonneg. Qed.

Lemma int8_byte_size_formula_at_768 :
  int_bits < 64 /\ 0 <= 768 <= INT_MAX /\
  sqlite_vec_int8_byte_size 64 768 = Ret 768.
Proof.
  assert (HW : int_bits < 64) by int_side.
  assert (Hd : 0 <= 768 <= INT_MAX) by int_side.
  exact (conj HW (conj Hd (int8_byte_size_formula 64 768 HW Hd))).
Defined.

(** C6. At dimension [0] each of the three size helpers returns [0]. *)
Theorem byte_size_zero (W : Z) (HW : int_bits < W) :
  sqlite_vec_float32_byte_size W 0 = Ret 0 /\
  sqlite_vec_int8_byte_size W 0 = Ret 0 /\
  sqlite_vec_binary_byte_size W 0 = Ret 0.
Proof.
  assert (H0 : 0 <= 0 <= INT_MAX) by int_side.
  split; [|split].
  - now rewrite float32_nonneg.
  - now rewrite int8_nonneg.
  - now rewrite binary_nonneg.
Qed.

Lemma byte_size_zero_lp64 :
  int_bits < 64 /\
  sqlite_vec_float32_byte_size 64 0 = Ret 0 /\
  sqlite_vec_int8_byte_size 64 0 = Ret 0 /\
  sqlite_vec_binary_byte_size 64 0 = Ret 0.
Proof.
  assert (HW : int_bits < 64) by int_side.
  split; [exact HW | exact (byte_size_zero 64 HW)].
Defined.

(** C7. The three size helpers have no failure path: for every argument
    (non-negative or not) each one returns, without undefined behaviour
    and without calling out, a value in the range of [size_t], which is
    non-negative. *)
Theorem byte_size_total (W d : Z) (HW : int_bits < W) :
  (exists v, sqlite_vec_float32_byte_size W d = Ret v /\ size_range W v) /\
  (exists v, sqlite_vec_int8_byte_size W d = Ret v /\ size_range W v) /\
  (exists v, sqlite_vec_binary_byte_size W d = Ret v /\ size_range W v).
Proof.
  pose proof (size_modulus_lower W HW) as Hm.
  split; [|split].
  - eexists. split; [reflexivity|].
    unfold size_range, SIZE_MAX, size_mul.
    match goal with |- 0 <= ?x mod ?m <= _ =>
      pose proof (Z.mod_pos_bound x m) end. lia.
  - eexists. split; [reflexivity|].
    unfold size_range, SIZE_MAX, size_mul.
    match goal with |- 0 <= ?x mod ?m <= _ =>
      pose proof (Z.mod_pos_bound x m) end. lia.
  - now apply binary_total.
Qed.

Lemma byte_size_total_at_5 :
  int_bits < 64 /\
  (exists v, sqlite_vec_float32_byte_size 64 5 = Ret v /\ size_range 64 v) /\
  (exists v, sqlite_vec_int8_byte_size 64 5 = Ret v /\ size_range 64 v) /\
  (exists v, sqlite_vec_binary_byte_size 64 5 = Ret v /\ size_range 64 v).
Proof.
  assert (HW : int_bits < 64) by int_side.
  exact (conj HW (byte_size_total 64 5 HW)).
Defined.

(** C10. On non-negative [int]s the three sizes are ordered, binary at most
    int8 at most float32, and each helper is monotone: for [d <= d'] its
    result at [d] is at most its result at [d']. *)
Theorem byte_size_ordered_monotone (W d d' : Z)
  (HW : int_bits < W) (Hd : 0 <= d) (Hdd' : d <= d') (Hd' : d' <= INT_MAX) :
  exists b i f b' i' f',
    sqlite_vec_binary_byte_size W d = Ret b /\
    sqlite_vec_int8_byte_size W d = Ret i /\
    sqlite_vec_float32_byte_size W d = Ret f /\
    sqlite_vec_binary_byte_size W d' = Ret b' /\
    sqlite_vec_int8_byte_size W d' = Ret i' /\
    sqlite_vec_float32_byte_size W d' = Ret f' /\
    b <= i <= f /\ b <= b' /\ i <= i' /\ f <= f'.
Proof.
  exists ((d + 7) / 8), d, (4 * d), ((d' + 7) / 8), d', (4 * d').
  rewrite !binary_nonneg, !int8_nonneg, !float32_nonneg by lia.
  repeat (split; [reflexivity|]).
  split; [|split; [|split]]; try lia.
  - Z.div_mod_to_equations. lia.
  - apply Z.div_le_mono; lia.
Qed.

Lemma byte_size_ordered_monotone_at_9_384 :
  int_bits < 64 /\ 0 <= 9 /\ 9 <= 384 /\ 384 <= INT_MAX /\
  exists b i f b' i' f',
    sqlite_vec_binary_byte_size 64 9 = Ret b /\
    sqlite_vec_int8_byte_size 64 9 = Ret i /\
    sqlite_vec_float32_byte_size 64 9 = Ret f /\
    sqlite_vec_binary_byte_size 64 384 = Ret b' /\
    sqlite_vec_int8_byte_size 64 384 = Ret i' /\
    sqlite_vec_float32_byte_size 64 384 = Ret f' /\
    b <= i <= f /\ b <= b' /\ i <= i' /\ f <= f'.
Proof.
  assert (HW : int_bits < 64) by int_side.
  assert (H1 : 0 <= 9) by lia.
  assert (H2 : 9 <= 384) by lia.
  assert (H3 : 384 <= INT_MAX) by int_side.
  exact (conj HW (conj H1 (conj H2 (conj H3
           (byte_size_ordered_monotone 64 9 384 HW H1 H2 H3))))).
Defined.

(** ** Negative dimensions *)

(** C5, as stated, does not hold for the packed-bit size: at [d = -8] with
    a 64-bit [size_t] the helper returns [2^61 - 1], while the ceiling of
    [d/8] is [-1], which is [2^64 - 1] modulo [2^64]. *)
Lemma binary_byte_size_negative_not_ceiling :
  int_range (-8) /\ -8 < 0 /\
  sqlite_vec_binary_byte_size 64 (-8) = Ret (2 ^ 61 - 1) /\
  Qceiling (-8 # 8) mod size_modulus 64 = 2 ^ 64 - 1 /\
  sqlite_vec_binary_byte_size 64 (-8)
    <> Ret (Qceiling (-8 # 8) mod size_modulus 64).
Proof.
  split; [int_side|]. split; [lia|].
  split; [reflexivity|]. split; [reflexivity|].
  vm_compute. intros H. inversion H.
Qed.

(** C5, amended. For a negative [int] [d], the float32 size is [4 * d]
    modulo [2^W], the int8 size is [d] modulo [2^W], and the packed-bit
    size is the ceiling of [d/8] modulo [2^(W-3)]: the division by 8 comes
    after the wrap-around, so three bits of the modulus are lost. *)
Theorem byte_size_negative (W d : Z)
  (HW : int_bits < W) (Hd : INT_MIN <= d < 0) :
  sqlite_vec_float32_byte_size W d = Ret ((4 * d) mod size_modulus W) /\
  sqlite_vec_int8_byte_size W d = Ret (d mod size_modulus W) /\
  sqlite_vec_binary_byte_size W d =
    Ret (Qceiling (d # 8) mod size_modulus (W - 3)).
Proof.
  split; [|split].
  - now apply float32_wraps.
  - now apply int8_wraps.
  - now apply binary_negative.
Qed.

Lemma byte_size_negative_at_minus_100 :
  int_bits < 64 /\ INT_MIN <= -100 < 0 /\
  sqlite_vec_float32_byte_size 64 (-100) =
    Ret ((4 * -100) mod size_modulus 64) /\
  sqlite_vec_int8_byte_size 64 (-100) = Ret (-100 mod size_modulus 64) /\
  sqlite_vec_binary_byte_size 64 (-100) =
    Ret (Qceiling (-100 # 8) mod size_modulus (64 - 3)).
Proof.
  assert (HW : int_bits < 64) by int_side.
  assert (Hd : INT_MIN <= -100 < 0) by int_side.
  exact (conj HW (conj Hd (byte_size_negative 64 (-100) HW Hd))).
Defined.

(** ** Purity of the size helpers *)

(** C8. Two calls of a size helper with the same dimension return the same
    value, whatever the state of the world at each call and whatever the
    extension would do: the helper makes no call and leaves the world as
    it found it. *)
Theorem byte_size_deterministic (world : Type)
  (ext1 ext2 : extension world) (w1 w2 : world) (W d : Z)
  (HW : int_bits < W) :
  (exists v, run ext1 (sqlite_vec_float32_byte_size W d) w1 = Some (v, w1, [])
          /\ run ext2 (sqlite_vec_float32_byte_size W d) w2 = Some (v, w2, []))
  /\
  (exists v, run ext1 (sqlite_vec_int8_byte_size W d) w1 = Some (v, w1, [])
          /\ run ext2 (sqlite_vec_int8_byte_size W d) w2 = Some (v, w2, []))
  /\
  (exists v, run ext1 (sqlite_vec_binary_byte_size W d) w1 = Some (v, w1, [])
          /\ run ext2 (sqlite_vec_binary_byte_size W d) w2 = Some (v, w2, [])).
Proof.
  destruct (byte_size_total W d HW)
    as ((f & Hf & _) & (i & Hi & _) & (b & Hb & _)).
  rewrite Hf, Hi, Hb.
  split; [|split]; eexists; split; reflexivity.
Qed.

Lemma byte_size_deterministic_at_384 :
  int_bits < 64 /\
  (exists v,
      run (fun _ _ _ (w : bool) => (0, w))
          (sqlite_vec_float32_byte_size 64 384) true = Some (v, true, [])
   /\ run (fun _ _ _ (w : bool) => (1, negb w))
          (sqlite_vec_float32_byte_size 64 384) false = Some (v, false, []))
  /\
  (exists v,
      run (fun _ _ _ (w : bool) => (0, w))
          (sqlite_vec_int8_byte_size 64 384) true = Some (v, true, [])
   /\ run (fun _ _ _ (w : bool) => (1, negb w))
          (sqlite_vec_int8_byte_size 64 384) false = Some (v, false, []))
  /\
  (exists v,
      run (fun _ _ _ (w : bool) => (0, w))
          (sqlite_vec_binary_byte_size 64 384) true = Some (v, true, [])
   /\ run (fun _ _ _ (w : bool) => (1, negb w))
          (sqlite_vec_binary_byte_size 64 384) false = Some (v, false, [])).
Proof.
  assert (HW : int_bits < 64) by int_side.
  exact (conj HW
           (byte_size_deterministic bool
              (fun _ _ _ w => (0, w)) (fun _ _ _ w => (1, negb w))
              true false 64 384 HW)).
Defined.

(** ** The registrar and the version accessor *)

(** C4. [sqlite_vec_register db] calls [sqlite3_vec_init] exactly once,
    with [db] and two null pointers, and returns the status of that call
    as it is; the world after the call is the one the extension left. *)
Theorem register_forwards (world : Type) (sqlite3_vec_init : extension world)
  (db : pointer) (w : world) :
  run sqlite3_vec_init (sqlite_vec_register db) w =
  Some (fst (sqlite3_vec_init db NULL NULL w),
        snd (sqlite3_vec_init db NULL NULL w),
        [Init_call db NULL NULL (fst (sqlite3_vec_init db NULL NULL w))]).
Proof.
  unfold sqlite_vec_register. cbn [run].
  destruct (sqlite3_vec_init db NULL NULL w) as [rc w'].
  reflexivity.
Qed.

(** C9. [sqlite_vec_version] returns the literal [SQLITE_VEC_VERSION] as it
    is, and every call returns it: the result does not depend on the world
    or on the extension, and the call changes nothing. *)
Theorem version_unchanged (SQLITE_VEC_VERSION : string) (world : Type)
  (ext1 ext2 : extension world) (w1 w2 : world) :
  sqlite_vec_version SQLITE_VEC_VERSION = Ret SQLITE_VEC_VERSION /\
  run ext1 (sqlite_vec_version SQLITE_VEC_VERSION) w1
    = Some (SQLITE_VEC_VERSION, w1, []) /\
  run ext2 (sqlite_vec_version SQLITE_VEC_VERSION) w2
    = Some (SQLITE_VEC_VERSION, w2, []).
Proof. split; [|split]; reflexivity. Qed.

(** ** Concrete runs *)

Example register_ok :
  run counting_extension (sqlite_vec_register (Addr 4096)) 0%nat
  = Some (0, 1%nat, [Init_call (Addr 4096) NULL NULL 0]).
Proof. reflexivity. Qed.

Example register_error :
  run counting_extension (sqlite_vec_register NULL) 7%nat
  = Some (1, 8%nat, [Init_call NULL NULL NULL 1]).
Proof. reflexivity. Qed.

Example version_literal :
  run counting_extension (sqlite_vec_version "v0.1.6") 3%nat
  = Some ("v0.1.6"%string, 3%nat, []).
Proof. reflexivity. Qed.

Example float32_384 : sqlite_vec_float32_byte_size 64 384 = Ret 1536.
Proof. reflexivity. Qed.

Example binary_boundaries :
  map (sqlite_vec_binary_byte_size 64) [0; 1; 7; 8; 9; 16; 17]
  = map Ret [0; 1; 1; 1; 2; 2; 3].
Proof. reflexivity. Qed.

(** The other reading of the formula on a negative count, the ceiling of
    the converted value over 8, fails as well: at [-1] the converted value
    is [2^64 - 1], an eighth of it rounds up to [2^61], and the helper
    returns [0]. *)
Remark binary_byte_size_minus_one :
  sqlite_vec_binary_byte_size 64 (-1) = Ret 0 /\
  Qceiling (size_of_int 64 (-1) # 8) = 2 ^ 61.
Proof. split; reflexivity. Qed.

(** Why [size_t] has to be wider than [int]: with a 32-bit [size_t] the
    float32 product wraps from [d = 2^30] on. *)
Remark float32_byte_size_ilp32 :
  sqlite_vec_float32_byte_size 32 (2 ^ 30) = Ret 0 /\
  sqlite_vec_float32_byte_size 32 (2 ^ 30 - 1) = Ret (4 * (2 ^ 30 - 1)).
Proof. split; reflexivity. Qed.

(** * Further properties of the header *)

(** ** Sizes when [size_t] is no wider than [int] *)

Lemma size_modulus_lower_32 (W : Z) :
  int_bits <= W -> 2 ^ 32 <= size_modulus W.
Proof.
  unfold int_bits, size_modulus. intros HW.
  apply Z.pow_le_mono_r; lia.
Qed.

(** Reduction of a value within one modulus of zero. *)
Lemma mod_one_wrap (m x : Z) :
  0 < m -> - m <= x < 2 * m ->
  x mod m = if x <? 0 then x + m else if x <? m then x else x - m.
Proof.
  intros Hm Hx.
  destruct (Z.ltb_spec x 0); [|destruct (Z.ltb_spec x m)].
  - symmetry. apply (Z.mod_unique_pos _ _ (-1)); lia.
  - apply Z.mod_small. lia.
  - symmetry. apply (Z.mod_unique_pos _ _ 1); lia.
Qed.

(** X1. The packed-bit size of a non-negative [int] [d] is a byte count
    [b] with room for all [d] bits and fewer than 8 bits to spare:
    [d <= 8 * b < d + 8].  It holds from a 32-bit [size_t] on. *)
Theorem binary_byte_size_tight (W d : Z)
  (HW : int_bits <= W) (Hd : 0 <= d <= INT_MAX) :
  exists b, sqlite_vec_binary_byte_size W d = Ret b /\ d <= 8 * b < d + 8.
Proof.
  destruct int_bounds as [_ Hmax].
  pose proof (size_modulus_lower_32 W HW) as Hm.
  exists ((d + 7) / 8). split.
  - unfold sqlite_vec_binary_byte_size, size_add.
    rewrite !size_of_int_small by lia.
    rewrite Z.mod_small by lia. reflexivity.
  - Z.div_mod_to_equations. lia.
Qed.

Lemma binary_byte_size_tight_ilp32 :
  int_bits <= 32 /\ 0 <= 2147483647 <= INT_MAX /\
  exists b, sqlite_vec_binary_byte_size 32 2147483647 = Ret b /\
            2147483647 <= 8 * b < 2147483647 + 8.
Proof.
  assert (HW : int_bits <= 32) by int_side.
  assert (Hd : 0 <= 2147483647 <= INT_MAX) by int_side.
  exact (conj HW (conj Hd (binary_byte_size_tight 32 2147483647 HW Hd))).
Defined.

(** X2. Where the float32 product wraps: for a non-negative [int] [d] and
    a [size_t] of at least 32 bits the helper returns [4 * d] when that is
    below [2^W] and [4 * d - 2^W] otherwise, so it is exact if and only if
    [4 * d < 2^W]. *)
Theorem float32_byte_size_wrap_threshold (W d : Z)
  (HW : int_bits <= W) (Hd : 0 <= d <= INT_MAX) :
  sqlite_vec_float32_byte_size W d =
    Ret (if 4 * d <? size_modulus W then 4 * d else 4 * d - size_modulus W) /\
  (sqlite_vec_float32_byte_size W d = Ret (4 * d) <-> 4 * d < size_modulus W).
Proof.
  destruct int_bounds as [_ Hmax].
  pose proof (size_modulus_lower_32 W HW) as Hm.
  assert (He : sqlite_vec_float32_byte_size W d =
               Ret (if 4 * d <? size_modulus W then 4 * d
                    else 4 * d - size_modulus W)).
  { unfold sqlite_vec_float32_byte_size, size_mul, sizeof_float.
    rewrite size_of_int_small by lia. f_equal.
    rewrite mod_one_wrap by lia.
    replace (d * 4) with (4 * d) by lia.
    destruct (Z.ltb_spec (4 * d) 0); [lia | reflexivity]. }
  split; [exact He|]. rewrite He.
  destruct (Z.ltb_spec (4 * d) (size_modulus W)) as [Hlt | Hge].
  - split; [intros _; exact Hlt | reflexivity].
  - split; [intros H; inversion H; lia | lia].
Qed.

Lemma float32_byte_size_wrap_threshold_ilp32 :
  int_bits <= 32 /\ 0 <= 1073741825 <= INT_MAX /\
  sqlite_vec_float32_byte_size 32 1073741825 =
    Ret (if 4 * 1073741825 <? size_modulus 32 then 4 * 1073741825
         else 4 * 1073741825 - size_modulus 32) /\
  (sqlite_vec_float32_byte_size 32 1073741825 = Ret (4 * 1073741825)
   <-> 4 * 1073741825 < size_modulus 32).
Proof.
  assert (HW : int_bits <= 32) by int_side.
  assert (Hd : 0 <= 1073741825 <= INT_MAX) by int_side.
  exact (conj HW (conj Hd (float32_byte_size_wrap_threshold 32 1073741825 HW Hd))).
Defined.

(** X3. The int8 and packed-bit sizes never wrap on a non-negative [int],
    even when [size_t] is only as wide as [int]: from 32 bits on they are
    [d] and the ceiling of [d/8]. *)
Theorem int8_byte_size_exact_from_32 (W d : Z)
  (HW : int_bits <= W) (Hd : 0 <= d <= INT_MAX) :
  sqlite_vec_int8_byte_size W d = Ret d /\
  sqlite_vec_binary_byte_size W d = Ret (Qceiling (d # 8)).
Proof.
  destruct int_bounds as [_ Hmax].
  pose proof (size_modulus_lower_32 W HW) as Hm.
  split.
  - unfold sqlite_vec_int8_byte_size, size_mul, sizeof_int8_t.
    rewrite size_of_int_small by lia.
    rewrite Z.mod_small by lia. f_equal. lia.
  - rewrite Qceiling_eighth.
    unfold sqlite_vec_binary_byte_size, size_add.
    rewrite !size_of_int_small by lia.
    rewrite Z.mod_small by lia. reflexivity.
Qed.

Lemma int8_byte_size_exact_from_32_at_max :
  int_bits <= 32 /\ 0 <= 2147483647 <= INT_MAX /\
  sqlite_vec_int8_byte_size 32 2147483647 = Ret 2147483647 /\
  sqlite_vec_binary_byte_size 32 2147483647 = Ret (Qceiling (2147483647 # 8)).
Proof.
  assert (HW : int_bits <= 32) by int_side.
  assert (Hd : 0 <= 2147483647 <= INT_MAX) by int_side.
  exact (conj HW (conj Hd (int8_byte_size_exact_from_32 32 2147483647 HW Hd))).
Defined.

(** ** Telling dimensions apart by their sizes *)

Lemma size_modulus_lower_34 (W : Z) :
  int_bits + 2 <= W -> 2 ^ 34 <= size_modulus W.
Proof.
  unfold int_bits, size_modulus. intros HW.
  apply Z.pow_le_mono_r; lia.
Qed.

Lemma int_bits_plus_2 (W : Z) : int_bits + 2 <= W -> int_bits < W.
Proof. lia. Qed.

Lemma Ret_inj {R : Type} (a b : R) : Ret a = Ret b -> a = b.
Proof. intros H. congruence. Qed.

(** X4. With a [size_t] at least two bits wider than [int], the float32
    and int8 sizes are injective on the whole range of [int], negative
    counts included: equal sizes come from equal dimensions only. *)
Theorem byte_size_injective (W d d' : Z)
  (HW : int_bits + 2 <= W) (Hd : int_range d) (Hd' : int_range d') :
  (sqlite_vec_float32_byte_size W d = sqlite_vec_float32_byte_size W d'
   <-> d = d') /\
  (sqlite_vec_int8_byte_size W d = sqlite_vec_int8_byte_size W d'
   <-> d = d').
Proof.
  destruct int_bounds as [Hmin Hmax]. unfold int_range in Hd, Hd'.
  pose proof (size_modulus_lower_34 W HW) as Hm.
  pose proof (int_bits_plus_2 W HW) as HW'.
  split; (split; [|intros ->; reflexivity]).
  - rewrite !float32_wraps by assumption.
    intros H. apply Ret_inj in H. rename H into He.
    rewrite !mod_one_wrap in He by lia.
    repeat match type of He with
           | context [?a <? ?b] => destruct (Z.ltb_spec a b)
           end; lia.
  - rewrite !int8_wraps by assumption.
    intros H. apply Ret_inj in H. rename H into He.
    rewrite !mod_one_wrap in He by lia.
    repeat match type of He with
           | context [?a <? ?b] => destruct (Z.ltb_spec a b)
           end; lia.
Qed.

Lemma byte_size_injective_at_minus_3 :
  int_bits + 2 <= 64 /\ int_range (-3) /\ int_range 3 /\
  (sqlite_vec_float32_byte_size 64 (-3) = sqlite_vec_float32_byte_size 64 3
   <-> -3 = 3) /\
  (sqlite_vec_int8_byte_size 64 (-3) = sqlite_vec_int8_byte_size 64 3
   <-> -3 = 3).
Proof.
  assert (HW : int_bits + 2 <= 64) by int_side.
  assert (Hd : int_range (-3)) by int_side.
  assert (Hd' : int_range 3) by int_side.
  exact (conj HW (conj Hd (conj Hd' (byte_size_injective 64 (-3) 3 HW Hd Hd')))).
Defined.

(** X5. A negative count gives a float32 or int8 size above every size of
    a non-negative count: with a [size_t] at least two bits wider than
    [int], the result at [d < 0] exceeds the result at any [d' >= 0]. *)
Theorem negative_size_above_valid (W d d' : Z)
  (HW : int_bits + 2 <= W)
  (Hd : INT_MIN <= d < 0) (Hd' : 0 <= d' <= INT_MAX) :
  (exists v v', sqlite_vec_float32_byte_size W d = Ret v /\
                sqlite_vec_float32_byte_size W d' = Ret v' /\ v' < v) /\
  (exists v v', sqlite_vec_int8_byte_size W d = Ret v /\
                sqlite_vec_int8_byte_size W d' = Ret v' /\ v' < v).
Proof.
  destruct int_bounds as [Hmin Hmax].
  pose proof (size_modulus_lower_34 W HW) as Hm.
  pose proof (int_bits_plus_2 W HW) as HW'.
  split.
  - exists (4 * d + size_modulus W), (4 * d').
    rewrite float32_wraps, float32_nonneg by assumption.
    rewrite mod_one_wrap by lia.
    destruct (Z.ltb_spec (4 * d) 0); [|lia].
    repeat split; lia.
  - exists (d + size_modulus W), d'.
    rewrite int8_wraps, int8_nonneg by assumption.
    rewrite mod_one_wrap by lia.
    destruct (Z.ltb_spec d 0); [|lia].
    repeat split; lia.
Qed.

Lemma negative_size_above_valid_at_extremes :
  int_bits + 2 <= 64 /\ INT_MIN <= -2147483648 < 0 /\
  0 <= 2147483647 <= INT_MAX /\
  (exists v v', sqlite_vec_float32_byte_size 64 (-2147483648) = Ret v /\
                sqlite_vec_float32_byte_size 64 2147483647 = Ret v' /\ v' < v) /\
  (exists v v', sqlite_vec_int8_byte_size 64 (-2147483648) = Ret v /\
                sqlite_vec_int8_byte_size 64 2147483647 = Ret v' /\ v' < v).
Proof.
  assert (HW : int_bits + 2 <= 64) by int_side.
  assert (Hd : INT_MIN <= -2147483648 < 0) by int_side.
  assert (Hd' : 0 <= 2147483647 <= INT_MAX) by int_side.
  exact (conj HW (conj Hd (conj Hd'
           (negative_size_above_valid 64 (-2147483648) 2147483647 HW Hd Hd')))).
Defined.

(** X6. The packed-bit size of a negative count: from [-7] to [-1] it is
    [0], the size of the empty vector, so these counts pass unnoticed; from
    [-8] down it is above the size of every non-negative count. *)
Theorem binary_negative_size (W d d' : Z)
  (HW : int_bits < W)
  (Hd : INT_MIN <= d < 0) (Hd' : 0 <= d' <= INT_MAX) :
  exists v v',
    sqlite_vec_binary_byte_size W d = Ret v /\
    sqlite_vec_binary_byte_size W d' = Ret v' /\
    ((-7 <= d /\ v = 0 /\ sqlite_vec_binary_byte_size W 0 = Ret v) \/
     (d <= -8 /\ v' < v)).
Proof.
  destruct int_bounds as [Hmin Hmax].
  pose proof (size_modulus_lower W HW) as Hm.
  assert (H3 : 3 <= W) by (unfold int_bits in HW; lia).
  pose proof (size_modulus_split W H3) as Hs.
  rewrite (binary_nonneg W d') by assumption.
  destruct (Z_lt_le_dec d (-7)) as [Hfar | Hnear].
  - rewrite binary_negative_far by lia.
    do 2 eexists. split; [reflexivity|]. split; [reflexivity|].
    right. split; [lia|].
    Z.div_mod_to_equations. lia.
  - rewrite binary_negative_near by lia.
    do 2 eexists. split; [reflexivity|]. split; [reflexivity|].
    left. split; [lia|]. split; [reflexivity|].
    now rewrite binary_nonneg by (assumption || lia).
Qed.

Lemma binary_negative_size_at_minus_7 :
  int_bits < 64 /\ INT_MIN <= -7 < 0 /\ 0 <= 128 <= INT_MAX /\
  exists v v',
    sqlite_vec_binary_byte_size 64 (-7) = Ret v /\
    sqlite_vec_binary_byte_size 64 128 = Ret v' /\
    ((-7 <= -7 /\ v = 0 /\ sqlite_vec_binary_byte_size 64 0 = Ret v) \/
     (-7 <= -8 /\ v' < v)).
Proof.
  assert (HW : int_bits < 64) by int_side.
  assert (Hd : INT_MIN <= -7 < 0) by int_side.
  assert (Hd' : 0 <= 128 <= INT_MAX) by int_side.
  exact (conj HW (conj Hd (conj Hd'
           (binary_negative_size 64 (-7) 128 HW Hd Hd')))).
Defined.

(** ** Sizes of concatenated vectors *)

(** X7. The float32 and int8 sizes are additive: for non-negative counts
    whose sum is still an [int], the size at [d1 + d2] is the sum of the
    sizes at [d1] and at [d2]. *)
Theorem byte_size_additive (W d1 d2 : Z)
  (HW : int_bits < W)
  (H1 : 0 <= d1) (H2 : 0 <= d2) (Hsum : d1 + d2 <= INT_MAX) :
  (exists f1 f2, sqlite_vec_float32_byte_size W d1 = Ret f1 /\
                 sqlite_vec_float32_byte_size W d2 = Ret f2 /\
                 sqlite_vec_float32_byte_size W (d1 + d2) = Ret (f1 + f2)) /\
  (exists i1 i2, sqlite_vec_int8_byte_size W d1 = Ret i1 /\
                 sqlite_vec_int8_byte_size W d2 = Ret i2 /\
                 sqlite_vec_int8_byte_size W (d1 + d2) = Ret (i1 + i2)).
Proof.
  split.
  - exists (4 * d1), (4 * d2).
    rewrite !float32_nonneg by lia.
    repeat split. f_equal. lia.
  - exists d1, d2.
    rewrite !int8_nonneg by lia.
    repeat split.
Qed.

Lemma byte_size_additive_at_384_768 :
  int_bits < 64 /\ 0 <= 384 /\ 0 <= 768 /\ 384 + 768 <= INT_MAX /\
  (exists f1 f2, sqlite_vec_float32_byte_size 64 384 = Ret f1 /\
                 sqlite_vec_float32_byte_size 64 768 = Ret f2 /\
                 sqlite_vec_float32_byte_size 64 (384 + 768) = Ret (f1 + f2)) /\
  (exists i1 i2, sqlite_vec_int8_byte_size 64 384 = Ret i1 /\
                 sqlite_vec_int8_byte_size 64 768 = Ret i2 /\
                 sqlite_vec_int8_byte_size 64 (384 + 768) = Ret (i1 + i2)).
Proof.
  assert (HW : int_bits < 64) by int_side.
  assert (H1 : 0 <= 384) by lia.
  assert (H2 : 0 <= 768) by lia.
  assert (Hsum : 384 + 768 <= INT_MAX) by int_side.
  exact (conj HW (conj H1 (conj H2 (conj Hsum
           (byte_size_additive 64 384 768 HW H1 H2 Hsum))))).
Defined.

(** X8. The packed-bit size is sub-additive with a loss of at most one
    byte: for non-negative counts whose sum is still an [int], the sizes
    [b1], [b2] at [d1], [d2] and [b] at [d1 + d2] satisfy
    [b <= b1 + b2 <= b + 1], and [b = b1 + b2] when [d1] is a multiple
    of 8. *)
Theorem binary_byte_size_concat (W d1 d2 : Z)
  (HW : int_bits < W)
  (H1 : 0 <= d1) (H2 : 0 <= d2) (Hsum : d1 + d2 <= INT_MAX) :
  exists b1 b2 b,
    sqlite_vec_binary_byte_size W d1 = Ret b1 /\
    sqlite_vec_binary_byte_size W d2 = Ret b2 /\
    sqlite_vec_binary_byte_size W (d1 + d2) = Ret b /\
    b <= b1 + b2 <= b + 1 /\
    (d1 mod 8 = 0 -> b = b1 + b2).
Proof.
  exists ((d1 + 7) / 8), ((d2 + 7) / 8), ((d1 + d2 + 7) / 8).
  rewrite !binary_nonneg by lia.
  split; [reflexivity|]. split; [reflexivity|]. split; [reflexivity|].
  split; [|intros Hmod]; Z.div_mod_to_equations; lia.
Qed.

Lemma binary_byte_size_concat_at_16_9 :
  int_bits < 64 /\ 0 <= 16 /\ 0 <= 9 /\ 16 + 9 <= INT_MAX /\
  exists b1 b2 b,
    sqlite_vec_binary_byte_size 64 16 = Ret b1 /\
    sqlite_vec_binary_byte_size 64 9 = Ret b2 /\
    sqlite_vec_binary_byte_size 64 (16 + 9) = Ret b /\
    b <= b1 + b2 <= b + 1 /\
    (16 mod 8 = 0 -> b = b1 + b2).
Proof.
  assert (HW : int_bits < 64) by int_side.
  assert (H1 : 0 <= 16) by lia.
  assert (H2 : 0 <= 9) by lia.
  assert (Hsum : 16 + 9 <= INT_MAX) by int_side.
  exact (conj HW (conj H1 (conj H2 (conj Hsum
           (binary_byte_size_concat 64 16 9 HW H1 H2 Hsum))))).
Defined.

(** ** Registering more than once *)

(** Running a sequence is running its parts in order. *)
Lemma run_bind (world : Type) (ext : extension world) (A B : Type)
  (p : prog A) (k : A -> prog B) (w : world) :
  run ext (bind p k) w =
  match run ext p w with
  | Some (a, w', calls) =>
      match run ext (k a) w' with
      | Some (b, w'', calls') => Some (b, w'', calls ++ calls')
      | None => None
      end
  | None => None
  end.
Proof.
  revert w. induction p as [a | | db e api h IH]; intros w; cbn [bind run].
  - destruct (run ext (k a) w) as [[[b w''] calls']|]; reflexivity.
  - reflexivity.
  - destruct (ext db e api w) as [rc w']. rewrite IH.
    destruct (run ext (h rc) w') as [[[a w1] calls]|]; [|reflexivity].
    destruct (run ext (k a) w1) as [[[b w2] calls']|]; reflexivity.
Qed.

(** X9. The shim keeps no record of what it registered: two registrations
    in a row, of the same connection or of two, make two calls of
    [sqlite3_vec_init], in order, each with its handle and two null
    pointers; the second call runs in the world the first one left, and
    both statuses come back as the extension gave them. *)
Theorem register_twice (world : Type) (ext : extension world)
  (db1 db2 : pointer) (w : world) :
  run ext
      (bind (sqlite_vec_register db1) (fun rc1 =>
       bind (sqlite_vec_register db2) (fun rc2 => Ret (rc1, rc2)))) w =
  let first := ext db1 NULL NULL w in
  let second := ext db2 NULL NULL (snd first) in
  Some ((fst first, fst second), snd second,
        [Init_call db1 NULL NULL (fst first);
         Init_call db2 NULL NULL (fst second)]).
Proof.
  rewrite run_bind. unfold sqlite_vec_register at 1. cbn [run].
  destruct (ext db1 NULL NULL w) as [rc1 w1]. cbn [fst snd].
  rewrite run_bind. unfold sqlite_vec_register. cbn [run].
  destruct (ext db2 NULL NULL w1) as [rc2 w2]. reflexivity.
Qed.

Example register_twice_counting :
  run counting_extension
      (bind (sqlite_vec_register (Addr 4096)) (fun rc1 =>
       bind (sqlite_vec_register (Addr 4096)) (fun rc2 => Ret (rc1, rc2))))
      0%nat
  = Some ((0, 0), 2%nat,
          [Init_call (Addr 4096) NULL NULL 0; Init_call (Addr 4096) NULL NULL 0]).
Proof. reflexivity. Qed.
